(** * BDNP private blockchain: a shallow embedding of [blockchain.js]

    The class [Blockchain] keeps an array of blocks and a height counter.
    Every method returns a Promise; the embedding passes the object state
    explicitly and returns the way the promise settles.

    JavaScript numbers that the code handles are integers (clock readings,
    parsed timestamps, heights); they are modelled by exact integers, the
    quotient of the elapsed-time computation by an exact rational, and [NaN]
    by [None].  Strings are ASCII strings. *)

From Stdlib Require Import ZArith NArith QArith List String Ascii Bool Lia.
Import ListNotations.

Local Open Scope string_scope.
Local Open Scope Z_scope.

(** ** JavaScript built-ins used by the class *)

(** [Number.prototype.toString] on a non-negative integer: its decimal
    digits, most significant first, no leading zero. *)
Definition digit_char (d : N) : ascii := ascii_of_N (48 + d).

Fixpoint toString_fuel (fuel : nat) (n : N) : string :=
  match fuel with
  | O => EmptyString
  | S fuel' =>
      if (n <? 10)%N then String (digit_char n) EmptyString
      else toString_fuel fuel' (n / 10)%N
           ++ String (digit_char (n mod 10)%N) EmptyString
  end.

Definition Number_toString (n : N) : string :=
  toString_fuel (S (N.to_nat (N.size n))) n.

(** [String.prototype.slice(start, end)]: negative indices count from the
    end of the string, and both are clamped to the string. *)
Definition String_slice (s : string) (b e : Z) : string :=
  let len := Z.of_nat (String.length s) in
  let from := if b <? 0 then Z.max (len + b) 0 else Z.min b len in
  let to := if e <? 0 then Z.max (len + e) 0 else Z.min e len in
  substring (Z.to_nat from) (Z.to_nat (Z.max (to - from) 0)) s.

(** [String.prototype.split(sep)] for a one-character separator. *)
Fixpoint String_split (sep : ascii) (s : string) : list string :=
  match s with
  | EmptyString => [EmptyString]
  | String c rest =>
      let parts := String_split sep rest in
      if Ascii.eqb c sep then EmptyString :: parts
      else match parts with
           | p :: ps => String c p :: ps
           | [] => [String c EmptyString]
           end
  end.

(** [parseInt(string)] with no radix: leading white space is skipped, then
    an optional sign, then an optional [0x] prefix that selects radix 16,
    then the longest run of digits; no digit at all gives [NaN]. *)
Definition is_StrWhiteSpaceChar (c : ascii) : bool :=
  let n := N_of_ascii c in
  ((9 <=? n) && (n <=? 13) || (n =? 32))%N.

Fixpoint trimStart (s : string) : string :=
  match s with
  | String c rest => if is_StrWhiteSpaceChar c then trimStart rest else s
  | EmptyString => EmptyString
  end.

Definition digit_value (c : ascii) : option N :=
  let n := N_of_ascii c in
  if ((48 <=? n) && (n <=? 57))%N then Some (n - 48)%N
  else if ((97 <=? n) && (n <=? 122))%N then Some (n - 87)%N
  else if ((65 <=? n) && (n <=? 90))%N then Some (n - 55)%N
  else None.

Fixpoint parse_digits (radix : N) (acc : option N) (s : string) : option N :=
  match s with
  | EmptyString => acc
  | String c rest =>
      match digit_value c with
      | Some d =>
          if (d <? radix)%N
          then parse_digits radix
                 (Some (match acc with Some a => a * radix + d | None => d end)%N)
                 rest
          else acc
      | None => acc
      end
  end.

Definition parseInt (s : string) : option Z :=
  let s1 := trimStart s in
  let '(sign, s2) :=
    match s1 with
    | String "-"%char rest => (-1, rest)
    | String "+"%char rest => (1, rest)
    | _ => (1, s1)
    end in
  let '(radix, s3) :=
    match s2 with
    | String "0"%char (String "x"%char rest) => (16%N, rest)
    | String "0"%char (String "X"%char rest) => (16%N, rest)
    | _ => (10%N, s2)
    end in
  match parse_digits radix None s3 with
  | Some n => Some (sign * Z.of_N n)
  | None => None
  end.

(** [parseInt(a[1])]: a missing element is [undefined], which parses to
    [NaN]. *)
Definition parseInt_at (parts : list string) (i : nat) : option Z :=
  match nth_error parts i with
  | Some s => parseInt s
  | None => None
  end.

(** The seconds part of a clock reading in milliseconds, as the code takes
    it everywhere: [new Date().getTime().toString().slice(0, -3)]. *)
Definition Date_seconds_string (now : N) : string :=
  String_slice (Number_toString now) 0 (-3).

(** [array[i]]: [undefined] outside the array. *)
Definition Array_get {A : Type} (a : list A) (i : Z) : option A :=
  if i <? 0 then None else nth_error a (Z.to_nat i).

(** Loose and strict comparison of two values that are each [null] or a
    string. *)
Definition nullable_eqb (a b : option string) : bool :=
  match a, b with
  | None, None => true
  | Some x, Some y => String.eqb x y
  | _, _ => false
  end.

(** ** Promises *)

(** What a promise is rejected with: [Error(message)] or a bare string. *)
Inductive Reason : Type :=
| Error (message : string)
| Plain (text : string).

(** How a promise ends.  [Pending] is a promise that never settles: an
    exception raised inside an [async] executor rejects the executor's own
    promise, and neither [resolve] nor [reject] of the outer one is called. *)
Inductive Promise (A : Type) : Type :=
| Resolved (value : A)
| Rejected (reason : Reason)
| Pending.

Arguments Resolved {A} value.
Arguments Rejected {A} reason.
Arguments Pending {A}.

(** ** Blocks *)

(** The star object of a submission, an opaque value. *)
Definition Star := string.

(** The argument of [new BlockClass.Block(...)]: [{data: 'Genesis Block'}]
    or [{data: {star, owner}}]. *)
Inductive Data : Type :=
| Marker (text : string)
| StarData (star : Star) (owner : string).

Module BlockClass.

(** Modelled from the spec: the class [Block] of [block.js], which is not
    among the sources.  A block holds a content hash, a position, a payload,
    a creation time and the hash of its predecessor. *)
Record Block : Type := mkBlock {
  hash : option string;
  height : Z;
  body : Data;
  time : option string;
  previousBlockHash : option string
}.

(** Modelled from the spec: the constructor of [Block], missing with
    [block.js]: a block is constructed with its payload only, the linkage
    fields unset, the position at 0. *)
Definition new (data : Data) : Block :=
  {| hash := None; height := 0; body := data; time := None;
     previousBlockHash := None |}.

Definition set_time (v : string) (b : Block) : Block :=
  {| hash := hash b; height := height b; body := body b; time := Some v;
     previousBlockHash := previousBlockHash b |}.

Definition set_previousBlockHash (v : option string) (b : Block) : Block :=
  {| hash := hash b; height := height b; body := body b; time := time b;
     previousBlockHash := v |}.

Definition set_height (v : Z) (b : Block) : Block :=
  {| hash := hash b; height := v; body := body b; time := time b;
     previousBlockHash := previousBlockHash b |}.

Definition set_hash (v : option string) (b : Block) : Block :=
  {| hash := v; height := height b; body := body b; time := time b;
     previousBlockHash := previousBlockHash b |}.

End BlockClass.

Import BlockClass.

(** What [getBData] resolves with: the block with its payload decoded, so
    that [resolved_block.body.data] can be read. *)
Record DecodedBlock : Type := mkDecoded {
  decoded_from : Block;
  body_data : Data
}.

(** [resolved_block.body.data.owner]; the genesis payload has no owner. *)
Definition data_owner (d : Data) : option string :=
  match d with
  | Marker _ => None
  | StarData _ o => Some o
  end.

(** An entry of the error log of [validateChain]: the result of a failed
    [validate] (first push) or the block whose link is broken (second
    push). *)
Inductive Violation : Type :=
| HashMismatch (block : Block)
| BrokenLink (block : Block).

(** ** The chain object *)

Record Blockchain : Type := mkChain {
  chain : list Block;
  height : Z
}.

(** ** Stand-ins for the external capabilities

    Used to run the model on concrete inputs: a serialisation that writes
    every field, a digest that is the identity (so that distinct texts have
    distinct digests), a signature check over a table of signed messages,
    and a decoder that hands the payload back. *)

Definition show_nullable (v : option string) : string :=
  match v with
  | Some s => s
  | None => "null"
  end.

Definition show_Data (d : Data) : string :=
  match d with
  | Marker text => text
  | StarData star owner => star ++ "@" ++ owner
  end.

Definition toy_JSON_stringify (b : Block) : string :=
  "hash=" ++ show_nullable (hash b)
  ++ ";height=" ++ Number_toString (Z.to_N (BlockClass.height b))
  ++ ";body=" ++ show_Data (body b)
  ++ ";time=" ++ show_nullable (time b)
  ++ ";previousBlockHash=" ++ show_nullable (previousBlockHash b).

Definition toy_SHA256 (text : string) : string := text.

(** A Bitcoin address, a challenge for it, and the signature of that
    challenge with the key of the address (a compressed key, 65 bytes in
    base64), as [bitcoinMessage.verify] accepts it. *)
Definition toy_address : string := "13wmWMfuCVgxeGoUEharfroAZJGGqb1PFo".

Definition toy_message : string :=
  "13wmWMfuCVgxeGoUEharfroAZJGGqb1PFo:1700000000:starRegistry".

Definition toy_signature : string :=
  "IBoynjD+a0N9hugeoGe2zGqkYVhoKu5Cg6XVErpFvwoGfBbl1U11A0uShMyZcC5O5xKpwLjpyWvQHzNIXnc4Byo=".

Definition toy_signed : list (string * string * string) :=
  [(toy_message, toy_address, toy_signature)].

(** The check throws ([None]) on a signature that is not 88 characters of
    base64 or an address that is not 34 characters long; otherwise it
    answers whether the message, the address and the signature are an
    entry of the table. *)
Definition toy_verify (message address signature : string) : option bool :=
  if ((String.length signature =? 88) && (String.length address =? 34))%nat
  then
    Some (existsb
            (fun entry =>
               String.eqb message (fst (fst entry))
               && String.eqb address (snd (fst entry))
               && String.eqb signature (snd entry))
            toy_signed)
  else None.

Definition toy_getBData (b : Block) : DecodedBlock :=
  {| decoded_from := b; body_data := body b |}.

(** ** The methods of [Blockchain] *)

Section Chain.

(** [SHA256(text).toString()] of crypto-js, [JSON.stringify] on a block,
    [bitcoinMessage.verify], which answers a boolean or throws ([None]) on
    a signature or an address it cannot decode, and the [getBData] method
    of a block, whose promise is already resolved when it is returned. *)
Variable SHA256 : string -> string.
Variable JSON_stringify : Block -> string.
Variable bitcoinMessage_verify : string -> string -> string -> option bool.
Variable getBData : Block -> DecodedBlock.

(** Modelled from the spec: the capability [computeContentHash], missing
    with [block.js]: the digest of the block's current fields, the stored
    hash left out. *)
Definition computeContentHash (b : Block) : string :=
  SHA256 (JSON_stringify (set_hash None b)).

(** Modelled from the spec: the method [validate] of [Block], missing with
    [block.js]: it recomputes the content hash from the current fields and
    answers the block itself ([None] here) when the stored hash agrees, and
    a mismatch report for that block otherwise. *)
Definition validate (b : Block) : option Violation :=
  if nullable_eqb (hash b) (Some (computeContentHash b)) then None
  else Some (HashMismatch b).

(** An object or an array is truthy, whatever it holds. *)
Definition truthy {A : Type} (object : A) : bool := true.

Definition addBlock_failed : Reason :=
  Error "Error occured during execution: Adding Block to the Chain Failed!".

(** [_addBlock(block)], lines 64-88.  [block] is [None] for a [null] or
    [undefined] argument.  Both call sites pass a block they have just
    constructed, so the block is passed by value and the sealed block is
    returned with the new state; a call on an object that is already in
    the chain, which the code would seal again in place, is outside this
    model. *)
Definition _addBlock (now : N) (block : option Block) (self : Blockchain)
  : Promise Block * Blockchain :=
  match block with
  | None => (Pending, self)              (* line 68 throws a TypeError *)
  | Some block =>
      let block := set_time (Date_seconds_string now) block in
      let linked :=
        if height self >? -1 then
          match Array_get (chain self) (height self - 1) with
          | Some previous =>
              let block := set_previousBlockHash (hash previous) block in
              Some (set_height 1 block)  (* block.height =+ 1 *)
          | None => None                 (* line 72 throws a TypeError *)
          end
        else Some block in
      match linked with
      | None => (Pending, self)
      | Some block =>
          let block :=
            set_hash (Some (SHA256 (JSON_stringify block))) block in
          let self :=
            {| chain := (chain self ++ [block])%list;
               height := 1 |} in         (* self.height =+ 1 *)
          if truthy block then (Resolved block, self)
          else (Rejected addBlock_failed, self)
      end
  end.

(** [initializeChain()], lines 36-41. *)
Definition initializeChain (now : N) (self : Blockchain) : Blockchain :=
  if height self =? -1 then
    let block := BlockClass.new (Marker "Genesis Block") in
    snd (_addBlock now (Some block) self)
  else self.

(** The constructor, lines 25-29.  [initializeChain] and the executor of
    [_addBlock] run to their end before the constructor returns, since
    nothing in them waits. *)
Definition constructor (now : N) : Blockchain :=
  initializeChain now {| chain := []; height := -1 |}.

(** [getChainHeight()], lines 46-50. *)
Definition getChainHeight (self : Blockchain) : Promise Z :=
  Resolved (height self).

(** [requestMessageOwnershipVerification(address)], lines 98-104; the
    object state is returned as the call leaves it. *)
Definition requestMessageOwnershipVerification
  (now : N) (address : string) (self : Blockchain)
  : Promise string * Blockchain :=
  (Resolved (address ++ ":" ++ Date_seconds_string now ++ ":starRegistry"),
   self).

(** [x < y] on rationals. *)
Definition Qltb (x y : Q) : bool := negb (Qle_bool y x).

(** [(current_time - time) / 60], [NaN] when either side is. *)
Definition time_elapsed (current_time time : option Z) : option Q :=
  match current_time, time with
  | Some c, Some t => Some (inject_Z (c - t) / inject_Z 60)%Q
  | _, _ => None
  end.

(** [time_elapsed < 5]; a comparison with [NaN] is false. *)
Definition less_than_5 (elapsed : option Q) : bool :=
  match elapsed with
  | Some q => Qltb q (inject_Z 5)
  | None => false
  end.

Definition submitStar_failed : Reason :=
  Error "Error submitting star! Elapsed time must be less than 5 minutes".

(** [submitStar(address, message, signature, star)], lines 123-146.  The
    clock is read here ([now]) and once more when the block is sealed
    ([now_seal]).  The signature check of line 133 runs before the test of
    line 137, inside the [async] executor: when it throws, neither
    [resolve] nor [reject] is called and the promise never settles. *)
Definition submitStar (now now_seal : N)
  (address message signature : string) (star : Star) (self : Blockchain)
  : Promise Block * Blockchain :=
  let time := parseInt_at (String_split ":"%char message) 1 in
  let current_time := parseInt (Date_seconds_string now) in
  let elapsed := time_elapsed current_time time in
  match bitcoinMessage_verify message address signature with
  | None => (Pending, self)              (* line 133 throws *)
  | Some verified =>
      if less_than_5 elapsed && verified then
        let block := BlockClass.new (StarData star address) in
        match _addBlock now_seal (Some block) self with
        | (Resolved sealed, self') => (Resolved sealed, self')
        | (_, self') => (Pending, self') (* the await throws or never ends *)
        end
      else (Rejected submitStar_failed, self)
  end.

(** [getBlockByHash(hash)], lines 154-167. *)
Definition getBlockByHash (h : string) (self : Blockchain) : Promise Block :=
  let result :=
    Array_get
      (filter (fun block => nullable_eqb (hash block) (Some h)) (chain self))
      0 in
  match result with
  | Some block => Resolved block
  | None => Rejected (Error "Block not found!")
  end.

(** [getBlockByHeight(height)], lines 174-185; [None] is [null]. *)
Definition getBlockByHeight (h : Z) (self : Blockchain)
  : Promise (option Block) :=
  let block :=
    Array_get (filter (fun p => BlockClass.height p =? h) (chain self)) 0 in
  match block with
  | Some b => Resolved (Some b)
  | None => Resolved None
  end.

(** [getStarsByWalletAddress(address)], lines 193-223.

    The executor walks the chain and, for every block above the genesis
    block, registers a callback on the promise of [getBData]; that promise
    is already resolved, so the callback is queued as a microtask with the
    decoded block.  The executor then resolves with the array [stars], which
    is still empty.  The callbacks run, in the order they were queued, before
    any reaction of the caller on the returned promise, and push into that
    same array. *)
Definition owner_is (address : string) (resolved_block : DecodedBlock)
  : bool :=
  match data_owner (body_data resolved_block) with
  | Some owner => String.eqb owner address
  | None => false                        (* undefined === address *)
  end.

Definition stars_callback (address : string)
  (stars : list DecodedBlock) (resolved_block : DecodedBlock)
  : list DecodedBlock :=
  if owner_is address resolved_block
  then (stars ++ [resolved_block])%list
  else stars.

Definition stars_microtasks (self : Blockchain) : list DecodedBlock :=
  fold_left
    (fun queue block =>
       if BlockClass.height block >? 0 then (queue ++ [getBData block])%list
       else queue)
    (chain self) [].

(** The content of [stars] when the executor calls [resolve]. *)
Definition stars_at_resolve (address : string) (self : Blockchain)
  : list DecodedBlock := [].

(** The settled promise, with the content of the array it was resolved with
    as the caller's reaction finds it. *)
Definition getStarsByWalletAddress (address : string) (self : Blockchain)
  : Promise (list DecodedBlock) :=
  let stars := stars_at_resolve address self in
  if truthy stars then
    Resolved (fold_left (stars_callback address) (stars_microtasks self) stars)
  else Rejected (Plain "No stars found for the given address!").

(** One round of the loop of [validateChain], lines 238-249, on the pair of
    its two local variables. *)
Definition validate_step
  (acc : list Violation * option string) (block : Block)
  : list Violation * option string :=
  let '(errorLog, previous_hash) := acc in
  let errorLog :=
    match validate block with
    | Some result => (errorLog ++ [result])%list
    | None => errorLog
    end in
  let errorLog :=
    if negb (nullable_eqb previous_hash (previousBlockHash block))
    then (errorLog ++ [BrokenLink block])%list
    else errorLog in
  (errorLog, hash block).

(** [validateChain()], lines 231-259. *)
Definition validateChain (self : Blockchain) : Promise (list Violation) :=
  let errorLog := fst (fold_left validate_step (chain self) ([], None)) in
  if truthy errorLog then Resolved errorLog
  else Rejected (Plain "Valid Chain").

(** The value of the local variable [previous_hash] of [validateChain] when
    the loop reaches the block at index [i]: [null] at the first block, the
    stored hash of the block just before otherwise (lines 234 and 247). *)
Definition previous_hash_at (blocks : list Block) (i : nat) : option string :=
  match i with
  | O => None
  | S j =>
      match nth_error blocks j with
      | Some previous => hash previous
      | None => None
      end
  end.

(** The states the object goes through: the fields as the constructor sets
    them, then any number of calls of [_addBlock]. *)
Inductive reachable : Blockchain -> Prop :=
| reachable_fields : reachable {| chain := []; height := -1 |}
| reachable_addBlock (now : N) (block : option Block) (self : Blockchain) :
    reachable self -> reachable (snd (_addBlock now block self)).

(** Appending the blocks of a list one after the other, each with its own
    clock reading. *)
Definition append_all (inputs : list (N * Block)) (self : Blockchain)
  : Blockchain :=
  fold_left
    (fun self input => snd (_addBlock (fst input) (Some (snd input)) self))
    inputs self.

(** ** Decimal rendering and the seconds of a clock reading *)

Lemma append_EmptyString (s : string) : s ++ EmptyString = s.
Proof.
  induction s as [|c s IH]; simpl; [reflexivity | now rewrite IH].
Qed.

Lemma append_associative (s t u : string) : (s ++ t) ++ u = s ++ (t ++ u).
Proof.
  induction s as [|c s IH]; simpl; [reflexivity | now rewrite IH].
Qed.

Lemma length_append (s t : string) :
  String.length (s ++ t) = (String.length s + String.length t)%nat.
Proof.
  induction s as [|c s IH]; simpl; [reflexivity | now rewrite IH].
Qed.

Lemma substring_prefix (s t : string) :
  substring 0 (String.length s) (s ++ t) = s.
Proof.
  induction s as [|c s IH]; simpl.
  - now destruct t.
  - now rewrite IH.
Qed.

Lemma String_slice_drop3 (s : string) (a b c : ascii) :
  String_slice (s ++ String a (String b (String c EmptyString))) 0 (-3) = s.
Proof.
  unfold String_slice. rewrite length_append. cbn [String.length].
  change (0 <? 0) with false. change (-3 <? 0) with true. cbv iota.
  replace (Z.min 0 _) with 0 by lia.
  replace (Z.to_nat (Z.max (Z.max _ 0 - 0) 0)) with (String.length s) by lia.
  apply substring_prefix.
Qed.

Lemma toString_fuel_enough (f g : nat) :
  forall n : N,
    (n < 2 ^ N.of_nat f)%N -> (n < 2 ^ N.of_nat g)%N ->
    toString_fuel (S f) n = toString_fuel (S g) n.
Proof.
  revert g. induction f as [|f IH]; intros g n Hf Hg;
    cbn [toString_fuel]; destruct (n <? 10)%N eqn:E; try reflexivity;
    apply N.ltb_ge in E.
  - change (2 ^ N.of_nat 0)%N with 1%N in Hf. lia.
  - destruct g as [|g].
    + change (2 ^ N.of_nat 0)%N with 1%N in Hg. lia.
    + rewrite Nat2N.inj_succ, N.pow_succ_r' in Hf, Hg.
      f_equal. apply IH; apply N.Div0.div_lt_upper_bound; lia.
Qed.

Lemma Number_toString_fuel (f : nat) (n : N) :
  (n < 2 ^ N.of_nat f)%N -> Number_toString n = toString_fuel (S f) n.
Proof.
  intros H. unfold Number_toString. apply toString_fuel_enough; [|exact H].
  rewrite N2Nat.id. apply N.size_gt.
Qed.

Lemma Number_toString_step (n : N) :
  (10 <= n)%N ->
  Number_toString n =
  Number_toString (n / 10) ++ String (digit_char (n mod 10)) EmptyString.
Proof.
  intros H. unfold Number_toString at 1.
  pose proof (N.size_gt n) as Hn.
  destruct (N.to_nat (N.size n)) as [|f] eqn:Ef.
  - assert (N.size n = 0%N) as E0 by lia. rewrite E0 in Hn.
    change (2 ^ 0)%N with 1%N in Hn. lia.
  - cbn [toString_fuel]. destruct (n <? 10)%N eqn:E.
    + apply N.ltb_lt in E. lia.
    + f_equal. symmetry. apply Number_toString_fuel.
      assert (N.size n = N.succ (N.of_nat f)) as E1 by lia.
      rewrite E1, N.pow_succ_r' in Hn.
      apply N.Div0.div_lt_upper_bound. lia.
Qed.

Lemma Date_seconds_string_div (now : N) :
  (1000 <= now)%N -> Date_seconds_string now = Number_toString (now / 1000).
Proof.
  intros H. unfold Date_seconds_string.
  assert (10 <= now / 10)%N as H1
    by (apply N.div_le_lower_bound; lia).
  assert (10 <= now / 10 / 10)%N as H2
    by (apply N.div_le_lower_bound; [lia|];
        apply N.div_le_lower_bound; lia).
  rewrite (Number_toString_step now) by lia.
  rewrite (Number_toString_step (now / 10)) by exact H1.
  rewrite (Number_toString_step (now / 10 / 10)) by exact H2.
  rewrite !append_associative. cbn [append].
  rewrite String_slice_drop3.
  rewrite !N.Div0.div_div. reflexivity.
Qed.

(** ** Reading a decimal rendering back *)

Lemma digit_cases (d : N) :
  (d < 10)%N ->
  (d = 0 \/ d = 1 \/ d = 2 \/ d = 3 \/ d = 4 \/
   d = 5 \/ d = 6 \/ d = 7 \/ d = 8 \/ d = 9)%N.
Proof. lia. Qed.

Lemma digit_value_digit_char (d : N) :
  (d < 10)%N -> digit_value (digit_char d) = Some d.
Proof.
  intros H. apply digit_cases in H.
  repeat (destruct H as [->|H]; [reflexivity|]). now subst.
Qed.

Lemma toString_fuel_S (f : nat) (n : N) :
  toString_fuel (S f) n =
  if (n <? 10)%N then String (digit_char n) EmptyString
  else toString_fuel f (n / 10)
       ++ String (digit_char (n mod 10)) EmptyString.
Proof. reflexivity. Qed.

Lemma parse_digits_toString (f : nat) :
  forall (n : N) (t : string),
    (n < 2 ^ N.of_nat f)%N ->
    parse_digits 10 None (toString_fuel (S f) n ++ t) =
    parse_digits 10 (Some n) t.
Proof.
  induction f as [|f IH]; intros n t Hn;
    rewrite toString_fuel_S; destruct (n <? 10)%N eqn:E.
  - cbn [append parse_digits].
    rewrite digit_value_digit_char by now apply N.ltb_lt. now rewrite E.
  - apply N.ltb_ge in E. change (2 ^ N.of_nat 0)%N with 1%N in Hn. lia.
  - cbn [append parse_digits].
    rewrite digit_value_digit_char by now apply N.ltb_lt. now rewrite E.
  - apply N.ltb_ge in E.
    rewrite Nat2N.inj_succ, N.pow_succ_r' in Hn.
    rewrite append_associative. cbn [append]. rewrite IH
      by (apply N.Div0.div_lt_upper_bound; lia).
    cbn [parse_digits].
    assert (n mod 10 < 10)%N as Hd by (apply N.mod_lt; lia).
    rewrite (digit_value_digit_char _ Hd).
    apply N.ltb_lt in Hd. rewrite Hd.
    do 2 f_equal. rewrite (N.div_mod' n 10) at 3. lia.
Qed.

Lemma toString_head (f : nat) :
  forall n : N,
    (n < 2 ^ N.of_nat f)%N ->
    exists d rest,
      (d < 10)%N /\
      toString_fuel (S f) n = String (digit_char d) rest /\
      (d = 0%N -> n = 0%N /\ rest = EmptyString).
Proof.
  induction f as [|f IH]; intros n Hn;
    rewrite toString_fuel_S; destruct (n <? 10)%N eqn:E.
  - apply N.ltb_lt in E. exists n, EmptyString. auto.
  - apply N.ltb_ge in E. change (2 ^ N.of_nat 0)%N with 1%N in Hn. lia.
  - apply N.ltb_lt in E. exists n, EmptyString. auto.
  - apply N.ltb_ge in E.
    rewrite Nat2N.inj_succ, N.pow_succ_r' in Hn.
    destruct (IH (n / 10)%N) as (d & rest & Hd & -> & H0);
      [apply N.Div0.div_lt_upper_bound; lia|].
    exists d. eexists. split; [exact Hd|]. split; [reflexivity|].
    intros ->. destruct (H0 eq_refl) as [Hz _].
    assert (1 <= n / 10)%N by (apply N.div_le_lower_bound; lia). lia.
Qed.

(** On a string that starts with a digit other than 0, [parseInt] is the
    run of decimal digits. *)
Lemma parseInt_digit_head (d : N) (rest : string) :
  (0 < d < 10)%N ->
  parseInt (String (digit_char d) rest) =
  option_map Z.of_N (parse_digits 10 None (String (digit_char d) rest)).
Proof.
  intros H.
  assert (d = 1 \/ d = 2 \/ d = 3 \/ d = 4 \/ d = 5 \/
          d = 6 \/ d = 7 \/ d = 8 \/ d = 9)%N as Hd by lia.
  unfold parseInt.
  repeat (destruct Hd as [Hd|Hd]); subst d;
    match goal with
    | |- context [String (digit_char ?k) rest] =>
        let c := eval vm_compute in (digit_char k) in
        change (digit_char k) with c;
        change (trimStart (String c rest)) with (String c rest)
    end;
    cbv beta iota zeta;
    match goal with
    | |- context [parse_digits ?r ?a ?s] => destruct (parse_digits r a s)
    end;
    cbn [option_map]; rewrite ?Z.mul_1_l; reflexivity.
Qed.

(** [parseInt] reads the decimal rendering of a number back. *)
Lemma parseInt_Number_toString (n : N) :
  parseInt (Number_toString n) = Some (Z.of_N n).
Proof.
  pose proof (N.size_gt n) as Hn. rewrite <- (N2Nat.id (N.size n)) in Hn.
  unfold Number_toString.
  pose proof (parse_digits_toString _ n EmptyString Hn) as Hp.
  rewrite append_EmptyString in Hp. cbn [parse_digits] in Hp.
  destruct (toString_head _ n Hn) as (d & rest & Hd & E & H0).
  rewrite E in Hp |- *.
  destruct (N.eq_dec d 0) as [->|Hd0].
  - destruct (H0 eq_refl) as [-> ->]. reflexivity.
  - rewrite parseInt_digit_head by lia. now rewrite Hp.
Qed.

(** The current time of [submitStar], from the first second of the epoch
    on: the clock reading in whole seconds. *)
Lemma current_time_seconds (now : N) :
  (1000 <= now)%N ->
  parseInt (Date_seconds_string now) = Some (Z.of_N (now / 1000)).
Proof.
  intros H. rewrite Date_seconds_string_div by exact H.
  apply parseInt_Number_toString.
Qed.

(** ** What [_addBlock] does to the chain *)

Lemma _addBlock_first (now : N) (b : Block) :
  _addBlock now (Some b) {| chain := []; height := -1 |} =
  let b1 := set_time (Date_seconds_string now) b in
  let sealed := set_hash (Some (SHA256 (JSON_stringify b1))) b1 in
  (Resolved sealed, {| chain := [sealed]; height := 1 |}).
Proof. reflexivity. Qed.

Lemma _addBlock_next (now : N) (b g : Block) (rest : list Block) :
  _addBlock now (Some b) {| chain := g :: rest; height := 1 |} =
  let b1 :=
    set_height 1
      (set_previousBlockHash (hash g)
         (set_time (Date_seconds_string now) b)) in
  let sealed := set_hash (Some (SHA256 (JSON_stringify b1))) b1 in
  (Resolved sealed,
   {| chain := (g :: rest ++ [sealed])%list; height := 1 |}).
Proof. reflexivity. Qed.

Lemma _addBlock_null (now : N) (self : Blockchain) :
  _addBlock now None self = (Pending, self).
Proof. reflexivity. Qed.

(** The height counter only ever holds -1 (before the genesis block) or 1. *)
Lemma reachable_shape (self : Blockchain) :
  reachable self ->
  self = {| chain := []; height := -1 |} \/
  exists g rest, self = {| chain := g :: rest; height := 1 |}.
Proof.
  induction 1 as [|now block self _ IH].
  - now left.
  - destruct block as [b|]; [|rewrite _addBlock_null; exact IH].
    right. destruct IH as [->|(g & rest & ->)].
    + rewrite _addBlock_first. cbn. eauto.
    + rewrite _addBlock_next. cbn. eauto.
Qed.

Lemma constructor_state (now : N) :
  constructor now =
  let b1 :=
    set_time (Date_seconds_string now)
      (BlockClass.new (Marker "Genesis Block")) in
  {| chain := [set_hash (Some (SHA256 (JSON_stringify b1))) b1];
     height := 1 |}.
Proof. reflexivity. Qed.

Lemma constructor_reachable (now : N) : reachable (constructor now).
Proof.
  unfold constructor, initializeChain. cbn [height Z.eqb].
  apply reachable_addBlock, reachable_fields.
Qed.

Lemma append_all_reachable (inputs : list (N * Block)) :
  forall self, reachable self -> reachable (append_all inputs self).
Proof.
  induction inputs as [|input inputs IH]; intros self H; [exact H|].
  apply IH. now apply reachable_addBlock.
Qed.

(** Every block appended after the genesis block [g] gets position 1 and
    the hash of [g] as its link. *)
Lemma append_all_linked (inputs : list (N * Block)) :
  forall (g : Block) (rest : list Block),
  exists extra,
    append_all inputs {| chain := g :: rest; height := 1 |} =
    {| chain := (g :: rest ++ extra)%list; height := 1 |} /\
    List.length extra = List.length inputs /\
    Forall (fun b => BlockClass.height b = 1 /\
                     previousBlockHash b = hash g) extra.
Proof.
  induction inputs as [|[now b] inputs IH]; intros g rest.
  - exists []. rewrite app_nil_r. repeat split. constructor.
  - unfold append_all. cbn [fold_left fst snd].
    rewrite _addBlock_next. cbn zeta. cbn [snd].
    match goal with
    | |- context [(rest ++ [?x])%list] =>
        destruct (IH g (rest ++ [x])%list) as (extra & E & L & F);
        exists (x :: extra)
    end.
    unfold append_all in E. rewrite E, <- app_assoc. cbn [app].
    repeat split; [cbn; now rewrite L|].
    constructor; [now split | exact F].
Qed.

Lemma map_constant {A B : Type} (f : A -> B) (y : B) (l : list A) :
  Forall (fun x => f x = y) l -> map f l = repeat y (List.length l).
Proof.
  induction 1 as [|x l E _ IH]; cbn; [reflexivity | now rewrite E, IH].
Qed.

(** ** The claims *)

(** C1 (as the code behaves): after the constructor and any number of
    appends, the positions in the chain are 0 for the genesis block and 1
    for every other block, and the stored height is 1: positions repeat and
    the height does not follow the number of blocks. *)
Theorem append_positions_stay_at_one (now : N) (inputs : list (N * Block)) :
  let self := append_all inputs (constructor now) in
  map BlockClass.height (chain self) = 0 :: repeat 1 (List.length inputs) /\
  height self = 1.
Proof.
  cbv zeta. rewrite constructor_state. cbv zeta.
  match goal with
  | |- context [append_all inputs {| chain := [?g]; height := 1 |}] =>
      destruct (append_all_linked inputs g []) as (extra & E & L & F)
  end.
  rewrite E. cbn [chain height map app]. split; [|reflexivity].
  f_equal. rewrite <- L. apply map_constant.
  eapply Forall_impl; [|exact F]. now intros b [Hb _].
Qed.

(** C2 (as the code behaves): after the constructor and any number of
    appends, every block after the genesis block carries the hash of the
    genesis block as its previous hash, whatever block was last when it was
    appended. *)
Theorem appended_blocks_link_to_genesis (now : N) (inputs : list (N * Block)) :
  exists g rest,
    chain (append_all inputs (constructor now)) = g :: rest /\
    List.length rest = List.length inputs /\
    Forall (fun b => previousBlockHash b = hash g) rest.
Proof.
  rewrite constructor_state. cbv zeta.
  match goal with
  | |- context [append_all inputs {| chain := [?g]; height := 1 |}] =>
      destruct (append_all_linked inputs g []) as (extra & E & L & F);
      exists g, extra
  end.
  rewrite E. cbn [chain app]. repeat split; [exact L|].
  eapply Forall_impl; [|exact F]. now intros b [_ Hb].
Qed.

(** C3 (as the code behaves): the chain the constructor leaves holds exactly
    the genesis block, with no previous hash and the genesis marker as its
    payload, and the stored height is 1. *)
Theorem constructor_leaves_height_one (now : N) :
  exists g,
    constructor now = {| chain := [g]; height := 1 |} /\
    previousBlockHash g = None /\
    body g = Marker "Genesis Block" /\
    BlockClass.height g = 0 /\
    getChainHeight (constructor now) = Resolved 1.
Proof.
  rewrite constructor_state. cbv zeta. eexists. repeat split.
Qed.

(** C10: in every state the object can be in, [_addBlock] on a block
    resolves with the sealed block and the chain array is one element
    longer; and no argument at all, [null] included, makes it reject. *)
Theorem _addBlock_always_resolves
  (self : Blockchain) (now : N) (block : Block) :
  reachable self ->
  (exists sealed self',
     _addBlock now (Some block) self = (Resolved sealed, self') /\
     chain self' = (chain self ++ [sealed])%list /\
     List.length (chain self') = S (List.length (chain self))) /\
  (forall (argument : option Block) (reason : Reason),
     fst (_addBlock now argument self) <> Rejected reason).
Proof.
  intros H. apply reachable_shape in H. split.
  - destruct H as [->|(g & rest & ->)].
    + rewrite _addBlock_first. cbv zeta. do 2 eexists.
      repeat split.
    + rewrite _addBlock_next. cbv zeta. do 2 eexists.
      split; [reflexivity|]. cbn [chain]. split; [reflexivity|].
      cbn [List.length]. rewrite length_app. cbn. lia.
  - intros [b|] reason; [|discriminate].
    destruct H as [->|(g & rest & ->)].
    + rewrite _addBlock_first. discriminate.
    + rewrite _addBlock_next. discriminate.
Qed.

(** ** Validation *)

Lemma nullable_eqb_eq (a b : option string) :
  nullable_eqb a b = true <-> a = b.
Proof.
  destruct a as [x|], b as [y|]; cbn; try (split; congruence).
  rewrite String.eqb_eq. split; congruence.
Qed.

Lemma nullable_eqb_neq (a b : option string) :
  nullable_eqb a b = false <-> a <> b.
Proof.
  rewrite <- nullable_eqb_eq. destruct (nullable_eqb a b); split; congruence.
Qed.

Lemma validate_mismatch (b : Block) :
  hash b <> Some (computeContentHash b) ->
  validate b = Some (HashMismatch b).
Proof.
  intros H. unfold validate. apply nullable_eqb_neq in H. now rewrite H.
Qed.

Lemma validate_step_previous (acc : list Violation * option string)
  (b : Block) : snd (validate_step acc b) = hash b.
Proof. destruct acc as [errorLog p]. reflexivity. Qed.

Lemma validate_step_keeps (acc : list Violation * option string)
  (b : Block) (v : Violation) :
  In v (fst acc) -> In v (fst (validate_step acc b)).
Proof.
  destruct acc as [errorLog p]. unfold validate_step. cbn [fst].
  intros H.
  destruct (validate b);
    destruct (negb (nullable_eqb p (previousBlockHash b)));
    rewrite ?in_app_iff; auto.
Qed.

Lemma validate_fold_keeps (l : list Block) :
  forall (acc : list Violation * option string) (v : Violation),
    In v (fst acc) -> In v (fst (fold_left validate_step l acc)).
Proof.
  induction l as [|b l IH]; intros acc v H; [exact H|].
  cbn [fold_left]. apply IH. now apply validate_step_keeps.
Qed.

Lemma validate_step_mismatch (acc : list Violation * option string)
  (b : Block) :
  hash b <> Some (computeContentHash b) ->
  In (HashMismatch b) (fst (validate_step acc b)).
Proof.
  intros H. destruct acc as [errorLog p]. unfold validate_step.
  rewrite (validate_mismatch b H). cbn [fst].
  destruct (negb (nullable_eqb p (previousBlockHash b)));
    rewrite ?in_app_iff; cbn; auto.
Qed.

Lemma validate_step_broken (acc : list Violation * option string)
  (b : Block) :
  snd acc <> previousBlockHash b ->
  In (BrokenLink b) (fst (validate_step acc b)).
Proof.
  intros H. destruct acc as [errorLog p]. cbn [snd] in H.
  apply nullable_eqb_neq in H. unfold validate_step. rewrite H.
  cbn [negb fst]. rewrite in_app_iff. cbn. auto.
Qed.

(** A block that does not carry the hash of the block just before it is
    logged as a broken link. *)
Lemma validate_fold_broken (l1 l2 : list Block) (a b : Block) :
  forall acc : list Violation * option string,
    hash a <> previousBlockHash b ->
    In (BrokenLink b)
       (fst (fold_left validate_step (l1 ++ a :: b :: l2)%list acc)).
Proof.
  intros acc H. rewrite fold_left_app. cbn [fold_left].
  apply validate_fold_keeps, validate_step_broken.
  now rewrite validate_step_previous.
Qed.

(** A block sealed by [_addBlock] from a freshly constructed block passes
    [validate]: the hash stored at line 76 is the content hash. *)
Lemma set_hash_None_sealed (b : Block) (h : option string) :
  hash b = None -> set_hash None (set_hash h b) = b.
Proof. destruct b. cbn. now intros ->. Qed.

Lemma validate_sealed (b : Block) :
  hash b = None ->
  validate (set_hash (Some (SHA256 (JSON_stringify b))) b) = None.
Proof.
  intros H. unfold validate, computeContentHash.
  rewrite set_hash_None_sealed by exact H.
  cbn [hash set_hash nullable_eqb]. now rewrite String.eqb_refl.
Qed.

Lemma _addBlock_sealed_validates
  (self : Blockchain) (now : N) (block : Block) :
  reachable self -> hash block = None ->
  exists sealed self',
    _addBlock now (Some block) self = (Resolved sealed, self') /\
    validate sealed = None.
Proof.
  intros H Hb. apply reachable_shape in H.
  destruct H as [->|(g & rest & ->)].
  - rewrite _addBlock_first. cbv zeta. do 2 eexists.
    split; [reflexivity|]. now apply validate_sealed.
  - rewrite _addBlock_next. cbv zeta. do 2 eexists.
    split; [reflexivity|]. now apply validate_sealed.
Qed.

(** The chain the constructor leaves, and that chain with one block
    appended, validate with an empty log. *)
Lemma validateChain_short_chains (now : N) (input : N * Block) :
  hash (snd input) = None ->
  validateChain (constructor now) = Resolved [] /\
  validateChain (append_all [input] (constructor now)) = Resolved [].
Proof.
  intros Hb. rewrite constructor_state. cbv zeta.
  destruct input as [now1 b1]. cbn [snd] in Hb.
  unfold append_all. cbn [fold_left fst snd].
  rewrite _addBlock_next. cbv zeta. cbn [snd app].
  unfold validateChain. cbn [truthy chain fold_left].
  unfold validate_step.
  rewrite !validate_sealed by first [reflexivity | exact Hb].
  cbn [previousBlockHash hash set_hash set_height set_previousBlockHash
         set_time BlockClass.new nullable_eqb negb fst].
  rewrite String.eqb_refl. split; reflexivity.
Qed.

(** C4: in any chain, a block whose recomputed content hash differs from
    the hash stored in it is reported: the list [validateChain] resolves
    with holds a hash mismatch for that block. *)
Theorem validateChain_reports_tampered_block
  (self : Blockchain) (b : Block) :
  In b (chain self) ->
  hash b <> Some (computeContentHash b) ->
  exists errorLog,
    validateChain self = Resolved errorLog /\
    In (HashMismatch b) errorLog.
Proof.
  intros Hin Hb. unfold validateChain. cbn [truthy].
  eexists. split; [reflexivity|].
  apply in_split in Hin. destruct Hin as (l1 & l2 & ->).
  rewrite fold_left_app. cbn [fold_left].
  now apply validate_fold_keeps, validate_step_mismatch.
Qed.

(** C5 (as the code behaves): on the untouched chain of the genesis block
    and two appended blocks, [validateChain] reports the third block as a
    broken link as soon as the first two blocks have different hashes. *)
Theorem validateChain_flags_untouched_chain
  (now : N) (first second : N * Block) :
  let self := append_all [first; second] (constructor now) in
  option_map hash (Array_get (chain self) 0) <>
  option_map hash (Array_get (chain self) 1) ->
  exists errorLog third,
    Array_get (chain self) 2 = Some third /\
    validateChain self = Resolved errorLog /\
    In (BrokenLink third) errorLog.
Proof.
  cbv zeta. rewrite constructor_state. cbv zeta.
  destruct first as [now1 b1], second as [now2 b2].
  unfold append_all. cbn [fold_left fst snd].
  rewrite _addBlock_next. cbv zeta. cbn [snd app].
  rewrite _addBlock_next. cbv zeta. cbn [snd app chain].
  match goal with
  | |- context [Array_get [?g; ?a; ?b] 2] =>
      change (Array_get [g; a; b] 0) with (Some g);
      change (Array_get [g; a; b] 1) with (Some a);
      change (Array_get [g; a; b] 2) with (Some b);
      intros H; exists (fst (fold_left validate_step [g; a; b] ([], None))), b;
      repeat split;
      apply (validate_fold_broken [g] [] a b);
      change (previousBlockHash b) with (hash g)
  end.
  cbn [option_map] in H. congruence.
Qed.

(** ** Lookups *)

Lemma Array_get_0 {A : Type} (l : list A) : Array_get l 0 = hd_error l.
Proof. now destruct l. Qed.

Lemma first_match {A : Type} (f : A -> bool) (l : list A) :
  (forall b,
     hd_error (filter f l) = Some b <->
     exists l1 l2,
       l = (l1 ++ b :: l2)%list /\ f b = true /\
       Forall (fun x => f x = false) l1) /\
  (hd_error (filter f l) = None <-> Forall (fun x => f x = false) l).
Proof.
  induction l as [|a l [IHsome IHnone]]; cbn [filter].
  - split; [intros b|]; split; cbn; try discriminate; try constructor.
    intros ([|x l1] & l2 & E & _); discriminate.
  - destruct (f a) eqn:Fa; cbn [hd_error]; split; [intros b| |intros b|].
    + split.
      * intros [= <-]. exists [], l. repeat split; [exact Fa | constructor].
      * intros ([|x l1] & l2 & E & Fb & Hl1); injection E as -> E.
        -- reflexivity.
        -- inversion Hl1; congruence.
    + split; [discriminate|]. intros H. inversion H; congruence.
    + rewrite IHsome. split.
      * intros (l1 & l2 & -> & Fb & Hl1). exists (a :: l1), l2.
        repeat split; [exact Fb | now constructor].
      * intros ([|x l1] & l2 & E & Fb & Hl1); injection E as -> E.
        -- congruence.
        -- exists l1, l2. inversion Hl1. now repeat split.
    + rewrite IHnone. split; [now constructor | now inversion 1].
Qed.

(** C9 (as the code behaves): [getBlockByHash] resolves with the first block
    of the chain whose stored hash is the one asked for, and when no block
    has it the promise is rejected with the error [Block not found!]. *)
Theorem getBlockByHash_first_or_rejects (h : string) (self : Blockchain) :
  (forall b,
     getBlockByHash h self = Resolved b <->
     exists l1 l2,
       chain self = (l1 ++ b :: l2)%list /\ hash b = Some h /\
       Forall (fun x => hash x <> Some h) l1) /\
  (getBlockByHash h self = Rejected (Error "Block not found!") <->
   Forall (fun x => hash x <> Some h) (chain self)).
Proof.
  unfold getBlockByHash. rewrite Array_get_0.
  destruct (first_match (fun block => nullable_eqb (hash block) (Some h))
              (chain self)) as [Hsome Hnone].
  assert (forall l,
            Forall (fun x => nullable_eqb (hash x) (Some h) = false) l <->
            Forall (fun x => hash x <> Some h) l) as HF.
  { intros l. rewrite !Forall_forall.
    split; intros H x Hx; apply nullable_eqb_neq, H, Hx. }
  split.
  - intros b.
    assert (hd_error
              (filter (fun block => nullable_eqb (hash block) (Some h))
                 (chain self)) = Some b <->
            exists l1 l2,
              chain self = (l1 ++ b :: l2)%list /\ hash b = Some h /\
              Forall (fun x => hash x <> Some h) l1) as Hb.
    { rewrite Hsome. split; intros (l1 & l2 & E & Fb & Hl); exists l1, l2;
        (split; [exact E | split; [now apply nullable_eqb_eq | now apply HF]]). }
    rewrite <- Hb.
    destruct (hd_error _) as [x|]; split; congruence.
  - rewrite <- HF, <- Hnone.
    destruct (hd_error _) as [x|]; split; congruence.
Qed.

(** ** Stars of an owner *)

Lemma stars_microtasks_fold (l : list Block) :
  forall queue : list DecodedBlock,
    fold_left
      (fun queue block =>
         if BlockClass.height block >? 0 then (queue ++ [getBData block])%list
         else queue) l queue =
    (queue ++
     map getBData (filter (fun block => BlockClass.height block >? 0) l))%list.
Proof.
  induction l as [|b l IH]; intros queue; cbn [fold_left filter].
  - now rewrite app_nil_r.
  - rewrite IH. destruct (BlockClass.height b >? 0); [|reflexivity].
    cbn [map]. now rewrite <- app_assoc.
Qed.

Lemma stars_callback_fold (address : string) (jobs : list DecodedBlock) :
  forall stars : list DecodedBlock,
    fold_left (stars_callback address) jobs stars =
    (stars ++ filter (owner_is address) jobs)%list.
Proof.
  induction jobs as [|d jobs IH]; intros stars; cbn [fold_left filter].
  - now rewrite app_nil_r.
  - rewrite IH. unfold stars_callback.
    destruct (owner_is address d); [|reflexivity].
    now rewrite <- app_assoc.
Qed.

(** C8: [getStarsByWalletAddress] resolves, and the array the caller finds
    holds the decoded blocks of the blocks with a position above 0 whose
    owner is the address, in chain order; it is the empty array when no
    owner matches. *)
Theorem getStarsByWalletAddress_filters_owner
  (address : string) (self : Blockchain) :
  let decoded :=
    map getBData
      (filter (fun block => BlockClass.height block >? 0) (chain self)) in
  getStarsByWalletAddress address self =
    Resolved (filter (owner_is address) decoded) /\
  ((forall d, In d decoded -> owner_is address d = false) <->
   getStarsByWalletAddress address self = Resolved []).
Proof.
  cbv zeta. unfold getStarsByWalletAddress, stars_at_resolve, stars_microtasks.
  cbn [truthy]. rewrite stars_callback_fold, stars_microtasks_fold.
  cbn [app]. split; [reflexivity|].
  split.
  - intros H. f_equal.
    induction (map getBData _) as [|d l IH]; [reflexivity|].
    cbn [filter]. rewrite (H d (or_introl eq_refl)).
    apply IH. intros x Hx. apply H. now right.
  - intros [= E] d Hd.
    destruct (owner_is address d) eqn:Ed; [|reflexivity].
    assert (In d (filter (owner_is address)
                    (map getBData
                       (filter (fun block => BlockClass.height block >? 0)
                          (chain self))))) as Hin
      by (apply filter_In; now split).
    rewrite E in Hin. destruct Hin.
Qed.

(** ** Challenges and submissions *)

Lemma less_than_5_spec (elapsed : option Q) :
  less_than_5 elapsed = true <->
  exists q, elapsed = Some q /\ (q < inject_Z 5)%Q.
Proof.
  destruct elapsed as [q|]; cbn [less_than_5].
  - unfold Qltb. rewrite negb_true_iff. split.
    + intros H. exists q. split; [reflexivity|].
      apply Qnot_le_lt. intros Hle. apply Qle_bool_iff in Hle. congruence.
    + intros (q' & [= <-] & Hlt).
      destruct (Qle_bool (inject_Z 5) q) eqn:E; [|reflexivity].
      apply Qle_bool_iff in E. now apply Qlt_not_le in Hlt.
  - split; [discriminate | intros (q & E & _); discriminate].
Qed.

(** The window is closed from 5 minutes on. *)
Lemma less_than_5_closed (q : Q) :
  less_than_5 (Some q) = false <-> (inject_Z 5 <= q)%Q.
Proof.
  cbn [less_than_5]. unfold Qltb. rewrite negb_false_iff.
  apply Qle_bool_iff.
Qed.

(** C7: from the first second of the epoch on, the challenge for an address
    is the address, a colon, the decimal digits of the clock reading in
    whole seconds, a colon and [starRegistry]; the object is left as it
    was. *)
Theorem requestMessageOwnershipVerification_format
  (now : N) (address : string) (self : Blockchain) :
  (1000 <= now)%N ->
  requestMessageOwnershipVerification now address self =
  (Resolved (address ++ ":" ++ Number_toString (now / 1000) ++ ":starRegistry"),
   self).
Proof.
  intros H. unfold requestMessageOwnershipVerification.
  now rewrite Date_seconds_string_div.
Qed.

(** C6 (as the code behaves): with [elapsed] the minutes between the time
    written in the message and the clock, and whenever the signature check
    returns an answer, [submitStar] appends a block with the star and the
    address and resolves with it when [elapsed < 5] holds and the answer is
    true; in every other case (5 minutes or more, a time that cannot be
    read, the answer false) it rejects with the one error of the method and
    leaves the object as it was. *)
Theorem submitStar_outcome
  (now now_seal : N) (address message signature : string) (star : Star)
  (self : Blockchain) (verified : bool) :
  reachable self ->
  bitcoinMessage_verify message address signature = Some verified ->
  let elapsed :=
    time_elapsed (parseInt (Date_seconds_string now))
      (parseInt_at (String_split ":"%char message) 1) in
  let accepted :=
    (exists q, elapsed = Some q /\ (q < inject_Z 5)%Q) /\
    verified = true in
  (accepted ->
   exists sealed self',
     submitStar now now_seal address message signature star self =
     (Resolved sealed, self') /\
     chain self' = (chain self ++ [sealed])%list /\
     body sealed = StarData star address) /\
  (~ accepted ->
   submitStar now now_seal address message signature star self =
   (Rejected submitStar_failed, self)).
Proof.
  intros Hself Hv elapsed accepted. unfold submitStar. rewrite Hv.
  fold elapsed.
  assert (less_than_5 elapsed && verified = true <-> accepted) as Hacc
    by (unfold accepted; now rewrite andb_true_iff, less_than_5_spec).
  destruct (less_than_5 elapsed && verified).
  - split; [intros _ | intros H; exfalso; now apply H, Hacc].
    apply reachable_shape in Hself.
    destruct Hself as [->|(g & rest & ->)].
    + rewrite _addBlock_first. cbv zeta. do 2 eexists. repeat split.
    + rewrite _addBlock_next. cbv zeta. do 2 eexists. repeat split.
  - split; [intros H; apply Hacc in H; discriminate | reflexivity].
Qed.

(** ** Further properties of the methods *)

Lemma _addBlock_reachable_result
  (self : Blockchain) (now : N) (block : Block) :
  reachable self ->
  exists sealed,
    _addBlock now (Some block) self =
    (Resolved sealed,
     {| chain := (chain self ++ [sealed])%list; height := 1 |}) /\
    body sealed = body block /\
    time sealed = Some (Date_seconds_string now) /\
    hash sealed =
    Some (SHA256 (JSON_stringify (set_hash (hash block) sealed))) /\
    (chain self <> [] -> BlockClass.height sealed = 1).
Proof.
  intros H. apply reachable_shape in H.
  destruct H as [->|(g & rest & ->)].
  - rewrite _addBlock_first. cbv zeta. eexists.
    split; [reflexivity|]. destruct block. cbn. repeat split. congruence.
  - rewrite _addBlock_next. cbv zeta. eexists.
    split; [reflexivity|]. destruct block. cbn. repeat split.
Qed.

Lemma hd_error_filter_app {A : Type} (f : A -> bool) (l : list A) (x : A) :
  hd_error (filter f (l ++ [x])) =
  match hd_error (filter f l) with
  | Some b => Some b
  | None => if f x then Some x else None
  end.
Proof.
  rewrite filter_app. destruct (filter f l) as [|b l']; cbn [app hd_error].
  - cbn [filter]. now destruct (f x).
  - reflexivity.
Qed.

Lemma filter_height_ones (h : Z) (l : list Block) :
  Forall (fun b => BlockClass.height b = 1) l ->
  filter (fun p => BlockClass.height p =? h) l = if 1 =? h then l else [].
Proof.
  induction 1 as [|b l Hb _ IH]; cbn [filter].
  - now destruct (1 =? h).
  - rewrite Hb, IH. now destruct (1 =? h).
Qed.

(** X1: [getBlockByHeight] resolves with the first block of the chain whose
    position is the one asked for, resolves with [null] exactly when no
    block has that position, and never rejects. *)
Theorem getBlockByHeight_first_or_null (h : Z) (self : Blockchain) :
  (forall b,
     getBlockByHeight h self = Resolved (Some b) <->
     exists l1 l2,
       chain self = (l1 ++ b :: l2)%list /\ BlockClass.height b = h /\
       Forall (fun x => BlockClass.height x <> h) l1) /\
  (getBlockByHeight h self = Resolved None <->
   Forall (fun x => BlockClass.height x <> h) (chain self)) /\
  (forall reason, getBlockByHeight h self <> Rejected reason).
Proof.
  unfold getBlockByHeight. rewrite Array_get_0.
  destruct (first_match (fun p => BlockClass.height p =? h) (chain self))
    as [Hsome Hnone].
  assert (forall l,
            Forall (fun x => (BlockClass.height x =? h) = false) l <->
            Forall (fun x => BlockClass.height x <> h) l) as HF.
  { intros l. rewrite !Forall_forall.
    split; intros H x Hx; apply Z.eqb_neq, H, Hx. }
  split; [|split].
  - intros b.
    assert (hd_error
              (filter (fun p => BlockClass.height p =? h) (chain self))
            = Some b <->
            exists l1 l2,
              chain self = (l1 ++ b :: l2)%list /\ BlockClass.height b = h /\
              Forall (fun x => BlockClass.height x <> h) l1) as Hb.
    { rewrite Hsome. split; intros (l1 & l2 & E & Fb & Hl); exists l1, l2;
        (split; [exact E | split; [now apply Z.eqb_eq | now apply HF]]). }
    rewrite <- Hb.
    destruct (hd_error _) as [x|]; split; congruence.
  - rewrite <- HF, <- Hnone.
    destruct (hd_error _) as [x|]; split; congruence.
  - intros reason. destruct (hd_error _); discriminate.
Qed.

(** X2: on the chain the constructor and any number of appends leave, the
    lookup by position finds the genesis block for 0, the first appended
    block for 1 ([null] when nothing was appended) and [null] for every
    other position: the blocks from the third on cannot be found by
    position. *)
Theorem getBlockByHeight_on_built_chain
  (now : N) (inputs : list (N * Block)) (h : Z) :
  let self := append_all inputs (constructor now) in
  getBlockByHeight h self =
  Resolved (if h =? 0 then Array_get (chain self) 0
            else if h =? 1 then Array_get (chain self) 1
            else None).
Proof.
  cbv zeta. rewrite constructor_state. cbv zeta.
  match goal with
  | |- context [append_all inputs {| chain := [?g]; height := 1 |}] =>
      destruct (append_all_linked inputs g []) as (extra & E & _ & F);
      set (genesis := g) in *
  end.
  rewrite E. cbn [app]. unfold getBlockByHeight. cbn [chain].
  assert (Forall (fun b => BlockClass.height b = 1) extra) as F1
    by (eapply Forall_impl; [|exact F]; now intros b [Hb _]).
  rewrite !Array_get_0. cbn [filter].
  change (BlockClass.height genesis) with 0.
  rewrite (filter_height_ones h extra F1).
  change (Array_get (genesis :: extra) 1) with (hd_error extra).
  rewrite (Z.eqb_sym h 0), (Z.eqb_sym h 1).
  destruct (0 =? h) eqn:E0.
  - reflexivity.
  - destruct (1 =? h); [|reflexivity]. now destruct extra.
Qed.

(** X3: once the constructor has run, calling [initializeChain] again
    changes nothing, whatever was appended since: no second genesis block
    is ever created. *)
Theorem initializeChain_again_is_void
  (now again : N) (inputs : list (N * Block)) :
  initializeChain again (append_all inputs (constructor now)) =
  append_all inputs (constructor now).
Proof.
  rewrite constructor_state. cbv zeta.
  match goal with
  | |- context [append_all inputs {| chain := [?g]; height := 1 |}] =>
      destruct (append_all_linked inputs g []) as (extra & E & _)
  end.
  rewrite E. reflexivity.
Qed.

(** *** The window of [submitStar], in seconds *)

Lemma less_than_5_seconds (c t : Z) :
  less_than_5 (time_elapsed (Some c) (Some t)) = (c - t <? 300).
Proof.
  cbn [time_elapsed less_than_5]. unfold Qltb, Qle_bool.
  cbn [inject_Z Qdiv Qmult Qinv Qnum Qden Z.mul Pos.mul].
  destruct (c - t <? 300) eqn:E.
  - apply Z.ltb_lt in E. apply negb_true_iff, Z.leb_gt.
    destruct (c - t); cbn; lia.
  - apply Z.ltb_ge in E. apply negb_false_iff, Z.leb_le.
    destruct (c - t); cbn; lia.
Qed.

Lemma submitStar_thrown
  (now now_seal : N) (address message signature : string) (star : Star)
  (self : Blockchain) :
  bitcoinMessage_verify message address signature = None ->
  submitStar now now_seal address message signature star self =
  (Pending, self).
Proof. intros H. unfold submitStar. now rewrite H. Qed.

Lemma submitStar_decided
  (now now_seal : N) (address message signature : string) (star : Star)
  (self : Blockchain) (verified : bool) :
  reachable self ->
  bitcoinMessage_verify message address signature = Some verified ->
  let test :=
    less_than_5
      (time_elapsed (parseInt (Date_seconds_string now))
         (parseInt_at (String_split ":"%char message) 1))
    && verified in
  (test = true ->
   exists sealed,
     submitStar now now_seal address message signature star self =
     (Resolved sealed,
      {| chain := (chain self ++ [sealed])%list; height := 1 |}) /\
     body sealed = StarData star address /\
     hash sealed <> None /\
     (chain self <> [] -> BlockClass.height sealed = 1)) /\
  (test = false ->
   submitStar now now_seal address message signature star self =
   (Rejected submitStar_failed, self)).
Proof.
  intros Hself Hv test. unfold submitStar. rewrite Hv. fold test.
  split; intros ->.
  - destruct (_addBlock_reachable_result self now_seal
                (BlockClass.new (StarData star address)) Hself)
      as (sealed & -> & Hbody & _ & Hhash & Hheight).
    exists sealed. repeat split; try assumption. now rewrite Hhash.
  - reflexivity.
Qed.


(** *** Splitting a message *)

Lemma String_split_no_separator (sep : ascii) (s : string) :
  ~ In sep (list_ascii_of_string s) -> String_split sep s = [s].
Proof.
  induction s as [|c s IH]; cbn [String_split list_ascii_of_string];
    intros H; [reflexivity|].
  destruct (Ascii.eqb_spec c sep) as [->|Hc].
  - exfalso. apply H. now left.
  - rewrite IH; [reflexivity|]. intros Hin. apply H. now right.
Qed.

Lemma String_split_first_field (sep : ascii) (a rest : string) :
  ~ In sep (list_ascii_of_string a) ->
  String_split sep (a ++ String sep rest) = a :: String_split sep rest.
Proof.
  induction a as [|c a IH]; cbn [append String_split list_ascii_of_string];
    intros H.
  - now rewrite Ascii.eqb_refl.
  - destruct (Ascii.eqb_spec c sep) as [->|Hc].
    + exfalso. apply H. now left.
    + rewrite IH; [reflexivity|]. intros Hin. apply H. now right.
Qed.

Lemma list_ascii_of_string_append (s t : string) :
  list_ascii_of_string (s ++ t) =
  (list_ascii_of_string s ++ list_ascii_of_string t)%list.
Proof.
  induction s as [|c s IH]; cbn; [reflexivity | now rewrite IH].
Qed.

Lemma toString_fuel_digits (f : nat) :
  forall (n : N) (c : ascii),
    In c (list_ascii_of_string (toString_fuel f n)) ->
    exists d, (d < 10)%N /\ c = digit_char d.
Proof.
  induction f as [|f IH]; intros n c; [intros []|].
  rewrite toString_fuel_S. destruct (n <? 10)%N eqn:E.
  - apply N.ltb_lt in E. intros [<-|[]]. eauto.
  - rewrite list_ascii_of_string_append, in_app_iff.
    intros [H|[<-|[]]]; [now apply (IH (n / 10)%N)|].
    exists (n mod 10)%N. split; [apply N.mod_lt; lia | reflexivity].
Qed.

Lemma Number_toString_no_colon (n : N) :
  ~ In ":"%char (list_ascii_of_string (Number_toString n)).
Proof.
  intros H. apply toString_fuel_digits in H.
  destruct H as (d & Hd & E). apply digit_cases in Hd.
  repeat (destruct Hd as [->|Hd]; [discriminate E|]).
  subst d. discriminate E.
Qed.

(** X5: a challenge issued for an address without a colon can be redeemed:
    submitted with a signature that verifies, the message that
    [requestMessageOwnershipVerification] returned at clock [issued] is
    accepted by [submitStar] at clock [now] exactly when the two clocks, in
    whole seconds, are less than 300 seconds apart. *)
Theorem challenge_round_trip
  (issued now now_seal : N) (address message signature : string)
  (star : Star) (self : Blockchain) :
  reachable self ->
  ~ In ":"%char (list_ascii_of_string address) ->
  (1000 <= issued)%N -> (1000 <= now)%N ->
  fst (requestMessageOwnershipVerification issued address self)
  = Resolved message ->
  bitcoinMessage_verify message address signature = Some true ->
  ((exists sealed self',
      submitStar now now_seal address message signature star self =
      (Resolved sealed, self')) <->
   Z.of_N (now / 1000) - Z.of_N (issued / 1000) < 300) /\
  (submitStar now now_seal address message signature star self =
   (Rejected submitStar_failed, self) <->
   300 <= Z.of_N (now / 1000) - Z.of_N (issued / 1000)).
Proof.
  intros Hself Haddr Hissued Hnow Hmsg Hsig.
  unfold requestMessageOwnershipVerification in Hmsg. cbn [fst] in Hmsg.
  injection Hmsg as Hmsg.
  assert (parseInt_at (String_split ":"%char message) 1
          = Some (Z.of_N (issued / 1000))) as Ht.
  { rewrite <- Hmsg. cbn [append].
    rewrite String_split_first_field by exact Haddr.
    rewrite String_split_first_field
      by (rewrite Date_seconds_string_div by exact Hissued;
          apply Number_toString_no_colon).
    cbn [parseInt_at nth_error]. now apply current_time_seconds. }
  destruct (submitStar_decided now now_seal address message signature star
              self true Hself Hsig) as [Hyes Hno].
  cbv zeta in Hyes, Hno.
  rewrite (current_time_seconds now Hnow), Ht, less_than_5_seconds,
    andb_true_r in Hyes, Hno.
  destruct (Z.of_N (now / 1000) - Z.of_N (issued / 1000) <? 300) eqn:E;
    [apply Z.ltb_lt in E | apply Z.ltb_ge in E].
  - destruct (Hyes eq_refl) as (sealed & Es & _). rewrite Es.
    split; split; try discriminate; try lia; eauto.
  - rewrite (Hno eq_refl). split; split; try lia; try reflexivity.
    intros (sealed & self' & H). discriminate.
Qed.

(** X6: a message with no colon in it has no time field, and [submitStar]
    never accepts it, at any clock: it rejects whenever the signature check
    returns an answer, whatever the answer, and its promise never settles
    when the check throws; the object is left as it was. *)
Theorem submitStar_rejects_message_without_colon
  (now now_seal : N) (address message signature : string) (star : Star)
  (self : Blockchain) :
  ~ In ":"%char (list_ascii_of_string message) ->
  (forall verified,
     bitcoinMessage_verify message address signature = Some verified ->
     submitStar now now_seal address message signature star self =
     (Rejected submitStar_failed, self)) /\
  (bitcoinMessage_verify message address signature = None ->
   submitStar now now_seal address message signature star self =
   (Pending, self)) /\
  (forall sealed self',
     submitStar now now_seal address message signature star self <>
     (Resolved sealed, self')).
Proof.
  intros H. unfold submitStar.
  rewrite (String_split_no_separator _ _ H). cbn [parseInt_at nth_error].
  assert (less_than_5
            (time_elapsed (parseInt (Date_seconds_string now)) None)
          = false) as -> by now destruct (parseInt (Date_seconds_string now)).
  cbn [andb].
  destruct (bitcoinMessage_verify message address signature);
    repeat split; intros; congruence.
Qed.

(** *** What the log of [validateChain] holds *)

Lemma validate_step_log (log : list Violation) (p : option string)
  (b : Block) (v : Violation) :
  In v (fst (validate_step (log, p) b)) <->
  In v log \/ validate b = Some v \/
  (v = BrokenLink b /\ p <> previousBlockHash b).
Proof.
  unfold validate_step.
  destruct (nullable_eqb p (previousBlockHash b)) eqn:E;
    [apply nullable_eqb_eq in E | apply nullable_eqb_neq in E];
    destruct (validate b) as [r|]; cbn [negb fst];
    rewrite ?in_app_iff; cbn [In]; split; intros H;
    repeat match goal with
           | H : _ \/ _ |- _ => destruct H
           | H : _ /\ _ |- _ => destruct H
           | H : False |- _ => destruct H
           | H : Some _ = Some _ |- _ => injection H as H
           end;
    subst; try discriminate; try contradiction; auto.
Qed.

Lemma validate_fold_previous (l : list Block) :
  snd (fold_left validate_step l ([], None)) =
  previous_hash_at l (List.length l).
Proof.
  destruct l as [|b l] using rev_ind; [reflexivity|].
  rewrite fold_left_app. cbn [fold_left].
  rewrite validate_step_previous, length_app, Nat.add_comm.
  cbn [List.length Nat.add previous_hash_at].
  now rewrite nth_error_app2, Nat.sub_diag by lia.
Qed.

Lemma previous_hash_at_app (l : list Block) (b : Block) (i : nat) :
  (i <= List.length l)%nat ->
  previous_hash_at (l ++ [b]) i = previous_hash_at l i.
Proof.
  destruct i as [|j]; [reflexivity|]. intros H. cbn [previous_hash_at].
  now rewrite nth_error_app1 by lia.
Qed.

Lemma validate_fold_log (l : list Block) (v : Violation) :
  In v (fst (fold_left validate_step l ([], None))) <->
  (exists b, In b l /\ validate b = Some v) \/
  (exists i b,
     nth_error l i = Some b /\ v = BrokenLink b /\
     previous_hash_at l i <> previousBlockHash b).
Proof.
  induction l as [|b l IH] using rev_ind.
  - cbn. split; [intros [] | intros [(b & [] & _)|(i & b & H & _)]].
    now destruct i.
  - rewrite fold_left_app. cbn [fold_left].
    pose proof (validate_fold_previous l) as Hp.
    destruct (fold_left validate_step l ([], None)) as [log p].
    cbn [fst snd] in IH, Hp. subst p.
    rewrite validate_step_log, IH. split.
    + intros [[(x & Hx & Hv)|(i & x & Hi & -> & Hl)]|[Hv|[-> Hl]]].
      * left. exists x. split; [apply in_or_app; now left | exact Hv].
      * right. exists i, x.
        assert (i < List.length l)%nat
          by (apply nth_error_Some; congruence).
        rewrite nth_error_app1, previous_hash_at_app by lia. auto.
      * left. exists b. split; [apply in_or_app; right; now left | exact Hv].
      * right. exists (List.length l), b.
        rewrite nth_error_app2, Nat.sub_diag, previous_hash_at_app by lia.
        auto.
    + intros [(x & Hx & Hv)|(i & x & Hi & -> & Hl)].
      * apply in_app_or in Hx. destruct Hx as [Hx|[<-|[]]]; eauto.
      * destruct (Nat.lt_ge_cases i (List.length l)) as [Hlt|Hge].
        -- rewrite nth_error_app1 in Hi by lia.
           rewrite previous_hash_at_app in Hl by lia.
           left. right. eauto.
        -- assert (i < List.length (l ++ [b]))%nat as Hlen
             by (apply nth_error_Some; congruence).
           rewrite length_app in Hlen. cbn in Hlen.
           assert (i = List.length l) as -> by lia.
           rewrite nth_error_app2, Nat.sub_diag in Hi by lia.
           injection Hi as <-.
           rewrite previous_hash_at_app in Hl by lia. auto.
Qed.

(** X7: [validateChain] resolves with a log that holds exactly the reports
    that [validate] gave for blocks of the chain, and, as a broken link,
    every block whose previous hash differs from the stored hash of the
    block just before it in the chain ([null] for the first block); nothing
    else is ever logged. *)
Theorem validateChain_log_content (self : Blockchain) :
  exists errorLog,
    validateChain self = Resolved errorLog /\
    forall v,
      In v errorLog <->
      (exists b, In b (chain self) /\ validate b = Some v) \/
      (exists i b,
         nth_error (chain self) i = Some b /\ v = BrokenLink b /\
         previous_hash_at (chain self) i <> previousBlockHash b).
Proof.
  unfold validateChain. cbn [truthy]. eexists. split; [reflexivity|].
  intros v. apply validate_fold_log.
Qed.

(** X8: the log of [validateChain] is empty exactly when [validate] passes
    every block and every block carries, as its previous hash, the stored
    hash of the block just before it, the first block carrying [null]. *)
Theorem validateChain_empty_log (self : Blockchain) :
  validateChain self = Resolved [] <->
  (forall b, In b (chain self) -> validate b = None) /\
  (forall i b,
     nth_error (chain self) i = Some b ->
     previousBlockHash b = previous_hash_at (chain self) i).
Proof.
  unfold validateChain. cbn [truthy].
  pose proof (validate_fold_log (chain self)) as Hlog.
  destruct (fst (fold_left validate_step (chain self) ([], None)))
    as [|v log].
  - split; [intros _ | reflexivity]. split.
    + intros b Hb. destruct (validate b) as [r|] eqn:E; [|reflexivity].
      exfalso. apply (proj2 (Hlog r)). left. eauto.
    + intros i b Hi.
      destruct (nullable_eqb (previous_hash_at (chain self) i)
                  (previousBlockHash b)) eqn:E.
      * symmetry. now apply nullable_eqb_eq.
      * apply nullable_eqb_neq in E. exfalso.
        apply (proj2 (Hlog (BrokenLink b))). right. eauto.
  - split; [discriminate|]. intros [Hv Hl]. exfalso.
    destruct (proj1 (Hlog v) (or_introl eq_refl))
      as [(b & Hb & E)|(i & b & Hi & _ & Hne)].
    + rewrite (Hv b Hb) in E. discriminate.
    + apply Hne. symmetry. now apply Hl.
Qed.

(** *** Appends and lookups *)

Lemma _addBlock_chain (now : N) (argument : option Block)
  (self : Blockchain) :
  chain (snd (_addBlock now argument self)) = chain self \/
  exists sealed,
    chain (snd (_addBlock now argument self))
    = (chain self ++ [sealed])%list.
Proof.
  unfold _addBlock. destruct argument as [b|]; [|now left].
  destruct (height self >? -1);
    [destruct (Array_get (chain self) (height self - 1))|];
    cbn [snd chain truthy]; eauto.
Qed.

Lemma submitStar_state
  (now now_seal : N) (address message signature : string) (star : Star)
  (self : Blockchain) :
  snd (submitStar now now_seal address message signature star self) = self \/
  snd (submitStar now now_seal address message signature star self) =
  snd (_addBlock now_seal
         (Some (BlockClass.new (StarData star address))) self).
Proof.
  unfold submitStar.
  destruct (bitcoinMessage_verify message address signature) as [verified|];
    [|now left].
  destruct (less_than_5 _ && verified); [right | now left].
  destruct (_addBlock now_seal _ self) as [[sealed|reason|] self'];
    reflexivity.
Qed.

Lemma getBlockByHash_after_push (h : string) (self self' : Blockchain)
  (b sealed : Block) :
  chain self' = (chain self ++ [sealed])%list ->
  getBlockByHash h self = Resolved b ->
  getBlockByHash h self' = Resolved b.
Proof.
  unfold getBlockByHash. rewrite !Array_get_0. intros ->.
  rewrite hd_error_filter_app.
  destruct (hd_error _) as [x|]; [trivial | discriminate].
Qed.

(** X9: a block found by its hash stays the answer for that hash after any
    later call of [submitStar] or [initializeChain], whatever the call
    does: both append, if they append, a block they have just
    constructed. *)
Theorem getBlockByHash_stable
  (h : string) (b : Block) (self : Blockchain)
  (now now_seal again : N)
  (address message signature : string) (star : Star) :
  getBlockByHash h self = Resolved b ->
  getBlockByHash h
    (snd (submitStar now now_seal address message signature star self))
  = Resolved b /\
  getBlockByHash h (initializeChain again self) = Resolved b.
Proof.
  intros H.
  assert (forall t a,
            getBlockByHash h (snd (_addBlock t a self)) = Resolved b) as Ha.
  { intros t a. destruct (_addBlock_chain t a self) as [E|(sealed & E)].
    - unfold getBlockByHash in *. now rewrite E.
    - now apply (getBlockByHash_after_push h self _ b sealed E). }
  split.
  - destruct (submitStar_state now now_seal address message signature star
                self) as [->| ->]; [exact H | apply Ha].
  - unfold initializeChain. destruct (height self =? -1); [apply Ha | exact H].
Qed.

(** X10: after an append, the lookup by the hash stored in the new block
    never rejects: it resolves with a block that carries this hash, and
    with the new block itself when no earlier block of the chain carries
    the same hash. *)
Theorem getBlockByHash_finds_appended
  (self self' : Blockchain) (now : N) (block sealed : Block) :
  reachable self ->
  _addBlock now (Some block) self = (Resolved sealed, self') ->
  exists h,
    hash sealed = Some h /\
    (exists found,
       getBlockByHash h self' = Resolved found /\ hash found = Some h) /\
    (Forall (fun x => hash x <> Some h) (chain self) ->
     getBlockByHash h self' = Resolved sealed).
Proof.
  intros Hself E.
  destruct (_addBlock_reachable_result self now block Hself)
    as (sealed' & E' & _ & _ & Hhash & _).
  rewrite E' in E. injection E as <- <-.
  eexists. split; [exact Hhash|].
  unfold getBlockByHash. cbn [chain]. rewrite !Array_get_0.
  rewrite hd_error_filter_app, Hhash. cbn [nullable_eqb].
  rewrite String.eqb_refl.
  match goal with
  | |- context [hd_error (filter ?f (chain self))] =>
      destruct (first_match f (chain self)) as [Hsome Hnone];
      destruct (hd_error (filter f (chain self))) as [x|] eqn:Ex
  end.
  - split.
    + exists x. split; [reflexivity|].
      destruct (proj1 (Hsome x) eq_refl) as (l1 & l2 & _ & Hx & _).
      now apply nullable_eqb_eq in Hx.
    + intros HF. exfalso.
      destruct (proj1 (Hsome x) eq_refl) as (l1 & l2 & El & Hx & _).
      apply nullable_eqb_eq in Hx. rewrite Forall_forall in HF.
      apply (HF x); [rewrite El; apply in_elt | exact Hx].
  - split; [|reflexivity]. exists sealed'. now split.
Qed.

(** X12: the block that [_addBlock] seals keeps the payload it came with,
    is stamped with the clock in whole seconds (from the first second of
    the epoch on), and, when it came with no hash, stores the digest of its
    own fields with the hash field unset. *)
Theorem _addBlock_seals
  (self self' : Blockchain) (now : N) (block sealed : Block) :
  reachable self ->
  (1000 <= now)%N ->
  _addBlock now (Some block) self = (Resolved sealed, self') ->
  body sealed = body block /\
  time sealed = Some (Number_toString (now / 1000)) /\
  (hash block = None ->
   hash sealed = Some (SHA256 (JSON_stringify (set_hash None sealed)))).
Proof.
  intros Hself Hnow E.
  destruct (_addBlock_reachable_result self now block Hself)
    as (sealed' & E' & Hbody & Htime & Hhash & _).
  rewrite E' in E. injection E as <- <-.
  rewrite <- (Date_seconds_string_div now Hnow).
  repeat split; try assumption. intros Hb. now rewrite <- Hb.
Qed.

(** *** Stars after a submission *)

Lemma getStarsByWalletAddress_closed (address : string) (self : Blockchain) :
  getStarsByWalletAddress address self =
  Resolved
    (filter (owner_is address)
       (map getBData
          (filter (fun block => BlockClass.height block >? 0)
             (chain self)))).
Proof.
  unfold getStarsByWalletAddress, stars_at_resolve, stars_microtasks.
  cbn [truthy]. now rewrite stars_callback_fold, stars_microtasks_fold.
Qed.

(** X11: when [submitStar] has accepted a star on a chain that holds the
    genesis block, and the decoder gives the payload of the new block back,
    the stars of the submitting address are the ones from before followed
    by the new block decoded, and the stars of every other address are the
    same as before. *)
Theorem getStarsByWalletAddress_after_submitStar
  (now now_seal : N) (address message signature : string) (star : Star)
  (self self' : Blockchain) (sealed : Block) :
  reachable self ->
  chain self <> [] ->
  submitStar now now_seal address message signature star self =
  (Resolved sealed, self') ->
  body_data (getBData sealed) = body sealed ->
  (forall stars,
     getStarsByWalletAddress address self = Resolved stars ->
     getStarsByWalletAddress address self' =
     Resolved (stars ++ [getBData sealed])%list) /\
  (forall other,
     other <> address ->
     getStarsByWalletAddress other self' =
     getStarsByWalletAddress other self).
Proof.
  intros Hself Hne E Hdec.
  destruct (bitcoinMessage_verify message address signature)
    as [verified|] eqn:Hv;
    [|rewrite (submitStar_thrown _ _ _ _ _ _ _ Hv) in E; discriminate].
  destruct (submitStar_decided now now_seal address message signature star
              self verified Hself Hv) as [Hyes Hno].
  cbv zeta in Hyes, Hno.
  destruct (less_than_5 _ && _);
    [|rewrite (Hno eq_refl) in E; discriminate].
  destruct (Hyes eq_refl) as (sealed' & E' & Hbody & _ & Hheight).
  rewrite E' in E. injection E as <- <-.
  specialize (Hheight Hne).
  assert (forall who,
            getStarsByWalletAddress who
              {| chain := (chain self ++ [sealed'])%list; height := 1 |} =
            Resolved
              (filter (owner_is who)
                 (map getBData
                    (filter (fun block => BlockClass.height block >? 0)
                       (chain self)))
               ++ (if String.eqb address who then [getBData sealed']
                   else []))%list) as Hnew.
  { intros who. rewrite getStarsByWalletAddress_closed. cbn [chain].
    rewrite filter_app. cbn [filter]. rewrite Hheight.
    change (1 >? 0) with true. cbv iota.
    rewrite map_app, filter_app. cbn [map filter].
    unfold owner_is at 2. rewrite Hdec, Hbody. cbn [data_owner].
    now destruct (String.eqb address who). }
  split.
  - intros stars Hstars. rewrite getStarsByWalletAddress_closed in Hstars.
    injection Hstars as <-. rewrite Hnew. now rewrite String.eqb_refl.
  - intros other Hother. rewrite Hnew, getStarsByWalletAddress_closed.
    destruct (String.eqb_spec address other) as [->|_];
      [contradiction|]. now rewrite app_nil_r.
Qed.

(** *** Broken links on the chains the code builds *)



End Chain.

(** ** The model on concrete inputs *)

Example Number_toString_seconds :
  Number_toString 1700000000 = "1700000000" /\
  Number_toString 0 = "0" /\
  Date_seconds_string 1700000000123 = "1700000000".
Proof. repeat split. Qed.

Example parseInt_examples :
  parseInt "1700000000" = Some 1700000000 /\
  parseInt " -12px" = Some (-12) /\
  parseInt "0x1f" = Some 31 /\
  parseInt "starRegistry" = None /\
  parseInt_at (String_split ":"%char "addr:1700000000:starRegistry") 1
  = Some 1700000000 /\
  parseInt_at (String_split ":"%char "addr") 1 = None.
Proof. repeat split. Qed.

(** C1, at the failing input: the genesis block and two appended blocks have
    positions 0, 1, 1, and the stored height is 1. *)
Example positions_after_two_appends :
  let self :=
    append_all toy_SHA256 toy_JSON_stringify
      [(1700000011000%N, BlockClass.new (StarData "star1" "addr"));
       (1700000021000%N, BlockClass.new (StarData "star2" "addr"))]
      (constructor toy_SHA256 toy_JSON_stringify 1700000000123) in
  map BlockClass.height (chain self) = [0; 1; 1] /\ height self = 1.
Proof. split; reflexivity. Qed.

(** C2, at the failing input: the third block carries the hash of the
    genesis block, which is not the hash of the second block. *)
Example third_block_links_to_genesis :
  let self :=
    append_all toy_SHA256 toy_JSON_stringify
      [(1700000011000%N, BlockClass.new (StarData "star1" "addr"));
       (1700000021000%N, BlockClass.new (StarData "star2" "addr"))]
      (constructor toy_SHA256 toy_JSON_stringify 1700000000123) in
  exists g b1 b2,
    chain self = [g; b1; b2] /\
    previousBlockHash b2 = hash g /\
    previousBlockHash b2 <> hash b1.
Proof.
  cbv zeta. do 3 eexists. split; [vm_compute; reflexivity|].
  split; [reflexivity | vm_compute; discriminate].
Qed.

(** C4 at a concrete chain: the payload of the genesis block is replaced
    after sealing. *)
Lemma validateChain_reports_tampered_block_witness :
  let sealed :=
    hd (BlockClass.new (Marker "none"))
       (chain (constructor toy_SHA256 toy_JSON_stringify 1700000000123)) in
  let tampered :=
    {| hash := hash sealed; BlockClass.height := BlockClass.height sealed;
       body := Marker "Tampered"; time := time sealed;
       previousBlockHash := previousBlockHash sealed |} in
  exists errorLog,
    validateChain toy_SHA256 toy_JSON_stringify
      {| chain := [tampered]; height := 1 |} = Resolved errorLog /\
    In (HashMismatch tampered) errorLog.
Proof.
  cbv zeta.
  apply (validateChain_reports_tampered_block toy_SHA256 toy_JSON_stringify).
  - left. reflexivity.
  - vm_compute. discriminate.
Defined.

(** C5 at the failing input: the chain of the genesis block and two
    appended blocks, untouched, is reported with a broken link. *)
Lemma validateChain_flags_untouched_chain_witness :
  let self :=
    append_all toy_SHA256 toy_JSON_stringify
      [(1700000011000%N, BlockClass.new (StarData "star1" "addr"));
       (1700000021000%N, BlockClass.new (StarData "star2" "addr"))]
      (constructor toy_SHA256 toy_JSON_stringify 1700000000123) in
  exists errorLog third,
    Array_get (chain self) 2 = Some third /\
    validateChain toy_SHA256 toy_JSON_stringify self = Resolved errorLog /\
    In (BrokenLink third) errorLog.
Proof.
  cbv zeta.
  apply (validateChain_flags_untouched_chain toy_SHA256 toy_JSON_stringify).
  vm_compute. discriminate.
Defined.

Example validateChain_untouched_chain_not_empty :
  validateChain toy_SHA256 toy_JSON_stringify
    (append_all toy_SHA256 toy_JSON_stringify
       [(1700000011000%N, BlockClass.new (StarData "star1" "addr"));
        (1700000021000%N, BlockClass.new (StarData "star2" "addr"))]
       (constructor toy_SHA256 toy_JSON_stringify 1700000000123))
  <> Resolved [].
Proof. vm_compute. discriminate. Qed.

(** C6, the claim as stated fails: a challenge submitted 5 minutes after
    the time written in it, with its true signature, and a challenge
    submitted 10 seconds after the time written in it, with the signature
    of another challenge (well formed, so that the check answers false),
    are rejected with the very same error; no two distinct rejections tell
    them apart. *)
Lemma submitStar_rejections_coincide :
  let fresh := constructor toy_SHA256 toy_JSON_stringify 1700000000123 in
  let other_message :=
    "13wmWMfuCVgxeGoUEharfroAZJGGqb1PFo:1700000290:starRegistry" in
  let expired :=
    submitStar toy_SHA256 toy_JSON_stringify toy_verify
      1700000300000 1700000300001
      toy_address toy_message toy_signature "star" fresh in
  let forged :=
    submitStar toy_SHA256 toy_JSON_stringify toy_verify
      1700000300000 1700000300001
      toy_address other_message toy_signature "star" fresh in
  less_than_5
    (time_elapsed (parseInt (Date_seconds_string 1700000300000))
       (parseInt_at (String_split ":"%char toy_message) 1)) = false /\
  toy_verify toy_message toy_address toy_signature = Some true /\
  less_than_5
    (time_elapsed (parseInt (Date_seconds_string 1700000300000))
       (parseInt_at (String_split ":"%char other_message) 1)) = true /\
  toy_verify other_message toy_address toy_signature = Some false /\
  fst expired = fst forged /\
  ~ (exists ExpiredChallenge InvalidSignature : Reason,
       ExpiredChallenge <> InvalidSignature /\
       fst expired = Rejected ExpiredChallenge /\
       fst forged = Rejected InvalidSignature).
Proof.
  cbv zeta. repeat split.
  intros (e1 & e2 & Hne & H1 & H2).
  vm_compute in H1, H2. congruence.
Qed.

(** C6 at concrete submissions, on the chain the constructor leaves: one
    accepted 10 seconds after the time in the message, one rejected at 5
    minutes sharp. *)
Lemma submitStar_outcome_witness :
  let fresh := constructor toy_SHA256 toy_JSON_stringify 1700000000123 in
  (exists sealed self',
     submitStar toy_SHA256 toy_JSON_stringify toy_verify
       1700000010000 1700000010001
       toy_address toy_message toy_signature "star" fresh
     = (Resolved sealed, self') /\
     chain self' = (chain fresh ++ [sealed])%list /\
     body sealed = StarData "star" toy_address) /\
  submitStar toy_SHA256 toy_JSON_stringify toy_verify
    1700000300000 1700000300001
    toy_address toy_message toy_signature "star" fresh
  = (Rejected submitStar_failed, fresh).
Proof.
  cbv zeta. split.
  - apply (submitStar_outcome toy_SHA256 toy_JSON_stringify toy_verify
             1700000010000 1700000010001
             toy_address toy_message toy_signature "star"
             (constructor toy_SHA256 toy_JSON_stringify 1700000000123)
             true
             (constructor_reachable toy_SHA256 toy_JSON_stringify
                1700000000123)
             eq_refl).
    split; [|reflexivity].
    exists (inject_Z 10 / inject_Z 60)%Q. split; reflexivity.
  - apply (submitStar_outcome toy_SHA256 toy_JSON_stringify toy_verify
             1700000300000 1700000300001
             toy_address toy_message toy_signature "star"
             (constructor toy_SHA256 toy_JSON_stringify 1700000000123)
             true
             (constructor_reachable toy_SHA256 toy_JSON_stringify
                1700000000123)
             eq_refl).
    intros [(q & E & Hq) _]. vm_compute in E. injection E as <-.
    vm_compute in Hq. discriminate.
Defined.

(** A signature that cannot be decoded: the check throws and the promise
    of [submitStar] never settles. *)
Example submitStar_pending_on_malformed_signature :
  let fresh := constructor toy_SHA256 toy_JSON_stringify 1700000000123 in
  submitStar toy_SHA256 toy_JSON_stringify toy_verify
    1700000010000 1700000010001
    toy_address toy_message "forged" "star" fresh
  = (Pending, fresh).
Proof. reflexivity. Qed.

(** C7 at a concrete clock reading. *)
Lemma requestMessageOwnershipVerification_format_witness :
  let fresh := constructor toy_SHA256 toy_JSON_stringify 1700000000123 in
  requestMessageOwnershipVerification 1700000042987 "addr" fresh =
  (Resolved
     ("addr" ++ ":" ++ Number_toString (1700000042987 / 1000)
      ++ ":starRegistry"),
   fresh).
Proof.
  cbv zeta.
  apply (requestMessageOwnershipVerification_format 1700000042987).
  vm_compute. discriminate.
Defined.

Example requestMessageOwnershipVerification_text :
  fst (requestMessageOwnershipVerification 1700000042987 "addr"
         (constructor toy_SHA256 toy_JSON_stringify 1700000000123))
  = Resolved "addr:1700000042:starRegistry".
Proof. reflexivity. Qed.

(** C9, the claim as stated fails: on the chain the constructor leaves, no
    block has the hash asked for, and the promise does not resolve with
    any outcome: it is rejected with an error. *)
Lemma getBlockByHash_absent_is_rejected :
  let fresh := constructor toy_SHA256 toy_JSON_stringify 1700000000123 in
  Forall (fun b => hash b <> Some "0000") (chain fresh) /\
  getBlockByHash "0000" fresh = Rejected (Error "Block not found!") /\
  ~ (exists outcome, getBlockByHash "0000" fresh = Resolved outcome).
Proof.
  cbv zeta. split; [|split].
  - repeat constructor. vm_compute. discriminate.
  - reflexivity.
  - intros (outcome & H). vm_compute in H. discriminate.
Qed.

(** The lookup by height, next to it, resolves with [null] for a position
    that no block has. *)
Example getBlockByHeight_absent_is_null :
  getBlockByHeight 7 (constructor toy_SHA256 toy_JSON_stringify 1700000000123)
  = Resolved None.
Proof. reflexivity. Qed.

(** C10 on the chain the constructor leaves. *)
Lemma _addBlock_always_resolves_witness :
  let fresh := constructor toy_SHA256 toy_JSON_stringify 1700000000123 in
  let block := BlockClass.new (StarData "star" "addr") in
  (exists sealed self',
     _addBlock toy_SHA256 toy_JSON_stringify 1700000010000 (Some block) fresh
     = (Resolved sealed, self') /\
     chain self' = (chain fresh ++ [sealed])%list /\
     List.length (chain self') = S (List.length (chain fresh))) /\
  (forall (argument : option Block) (reason : Reason),
     fst (_addBlock toy_SHA256 toy_JSON_stringify 1700000010000 argument fresh)
     <> Rejected reason).
Proof.
  cbv zeta.
  apply (_addBlock_always_resolves toy_SHA256 toy_JSON_stringify).
  apply constructor_reachable.
Defined.

(** The array of stars at the moment the promise is resolved, and as the
    caller finds it. *)
Example getStarsByWalletAddress_two_owners :
  let self :=
    append_all toy_SHA256 toy_JSON_stringify
      [(1700000011000%N, BlockClass.new (StarData "star1" "A"));
       (1700000021000%N, BlockClass.new (StarData "star2" "B"));
       (1700000031000%N, BlockClass.new (StarData "star3" "A"))]
      (constructor toy_SHA256 toy_JSON_stringify 1700000000123) in
  exists stars,
    getStarsByWalletAddress toy_getBData "A" self = Resolved stars /\
    map body_data stars = [StarData "star1" "A"; StarData "star3" "A"] /\
    getStarsByWalletAddress toy_getBData "C" self = Resolved [].
Proof. cbv zeta. eexists. repeat split. Qed.

(** ** The further properties on concrete inputs *)


(** X5 for a challenge issued at 1700000000123 and redeemed 299 seconds
    later. *)
Lemma challenge_round_trip_witness :
  let fresh := constructor toy_SHA256 toy_JSON_stringify 1700000000123 in
  let run :=
    submitStar toy_SHA256 toy_JSON_stringify toy_verify
      1700000299999 1700000300001
      toy_address toy_message toy_signature "star" fresh in
  ((exists sealed self', run = (Resolved sealed, self')) <->
   Z.of_N (1700000299999 / 1000) - Z.of_N (1700000000123 / 1000) < 300) /\
  (run = (Rejected submitStar_failed, fresh) <->
   300 <= Z.of_N (1700000299999 / 1000) - Z.of_N (1700000000123 / 1000)).
Proof.
  cbv zeta.
  apply (challenge_round_trip toy_SHA256 toy_JSON_stringify toy_verify
           1700000000123).
  - apply constructor_reachable.
  - vm_compute. intuition discriminate.
  - vm_compute. discriminate.
  - vm_compute. discriminate.
  - reflexivity.
  - reflexivity.
Defined.

(** X6 for a challenge written with spaces, sent with a well-formed
    signature: the check answers false and the submission is rejected. *)
Lemma submitStar_rejects_message_without_colon_witness :
  let fresh := constructor toy_SHA256 toy_JSON_stringify 1700000000123 in
  let message :=
    "13wmWMfuCVgxeGoUEharfroAZJGGqb1PFo 1700000000 starRegistry" in
  toy_verify message toy_address toy_signature = Some false /\
  submitStar toy_SHA256 toy_JSON_stringify toy_verify
    1700000010000 1700000010001
    toy_address message toy_signature "star" fresh
  = (Rejected submitStar_failed, fresh).
Proof.
  cbv zeta. split; [reflexivity|].
  apply (submitStar_rejects_message_without_colon toy_SHA256
           toy_JSON_stringify toy_verify
           1700000010000 1700000010001 toy_address
           "13wmWMfuCVgxeGoUEharfroAZJGGqb1PFo 1700000000 starRegistry"
           toy_signature "star"
           (constructor toy_SHA256 toy_JSON_stringify 1700000000123))
    with (verified := false).
  - vm_compute. intuition discriminate.
  - reflexivity.
Defined.

(** X9 for the genesis block, after an accepted submission and after a
    second call of [initializeChain]. *)
Lemma getBlockByHash_stable_witness :
  let fresh := constructor toy_SHA256 toy_JSON_stringify 1700000000123 in
  let genesis := hd (BlockClass.new (Marker "none")) (chain fresh) in
  let h :=
    "hash=null;height=0;body=Genesis Block;time=1700000000;previousBlockHash=null" in
  getBlockByHash h
    (snd (submitStar toy_SHA256 toy_JSON_stringify toy_verify
            1700000010000 1700000010001
            toy_address toy_message toy_signature "star" fresh))
  = Resolved genesis /\
  getBlockByHash h
    (initializeChain toy_SHA256 toy_JSON_stringify 1700000020000 fresh)
  = Resolved genesis.
Proof.
  cbv zeta.
  apply (getBlockByHash_stable toy_SHA256 toy_JSON_stringify toy_verify).
  reflexivity.
Defined.

(** X10 for a block appended to the chain the constructor leaves. *)
Lemma getBlockByHash_finds_appended_witness :
  let fresh := constructor toy_SHA256 toy_JSON_stringify 1700000000123 in
  let run :=
    _addBlock toy_SHA256 toy_JSON_stringify 1700000010000
      (Some (BlockClass.new (StarData "star" "addr"))) fresh in
  exists sealed,
    fst run = Resolved sealed /\
    exists h,
      hash sealed = Some h /\
      (exists found,
         getBlockByHash h (snd run) = Resolved found /\
         hash found = Some h) /\
      (Forall (fun x => hash x <> Some h) (chain fresh) ->
       getBlockByHash h (snd run) = Resolved sealed).
Proof.
  cbv zeta. eexists. split; [reflexivity|].
  eapply (getBlockByHash_finds_appended toy_SHA256 toy_JSON_stringify
           (constructor toy_SHA256 toy_JSON_stringify 1700000000123)
           _ 1700000010000 (BlockClass.new (StarData "star" "addr"))).
  - apply constructor_reachable.
  - reflexivity.
Defined.

(** X11 for a star accepted on the chain the constructor leaves. *)
Lemma getStarsByWalletAddress_after_submitStar_witness :
  let fresh := constructor toy_SHA256 toy_JSON_stringify 1700000000123 in
  let run :=
    submitStar toy_SHA256 toy_JSON_stringify toy_verify
      1700000010000 1700000010001
      toy_address toy_message toy_signature "star" fresh in
  exists sealed,
    fst run = Resolved sealed /\
    (forall stars,
       getStarsByWalletAddress toy_getBData toy_address fresh
       = Resolved stars ->
       getStarsByWalletAddress toy_getBData toy_address (snd run) =
       Resolved (stars ++ [toy_getBData sealed])%list) /\
    (forall other,
       other <> toy_address ->
       getStarsByWalletAddress toy_getBData other (snd run) =
       getStarsByWalletAddress toy_getBData other fresh).
Proof.
  cbv zeta. eexists. split; [reflexivity|].
  apply (getStarsByWalletAddress_after_submitStar toy_SHA256
           toy_JSON_stringify toy_verify toy_getBData
           1700000010000 1700000010001
           toy_address toy_message toy_signature "star"
           (constructor toy_SHA256 toy_JSON_stringify 1700000000123)).
  - apply constructor_reachable.
  - discriminate.
  - reflexivity.
  - reflexivity.
Defined.

(** X12 for a block appended to the chain the constructor leaves. *)
Lemma _addBlock_seals_witness :
  let fresh := constructor toy_SHA256 toy_JSON_stringify 1700000000123 in
  let block := BlockClass.new (StarData "star" "addr") in
  let run :=
    _addBlock toy_SHA256 toy_JSON_stringify 1700000010999 (Some block)
      fresh in
  exists sealed,
    fst run = Resolved sealed /\
    body sealed = body block /\
    time sealed = Some (Number_toString (1700000010999 / 1000)) /\
    (hash block = None ->
     hash sealed =
     Some (toy_SHA256 (toy_JSON_stringify (set_hash None sealed)))).
Proof.
  cbv zeta. eexists. split; [reflexivity|].
  eapply (_addBlock_seals toy_SHA256 toy_JSON_stringify
           (constructor toy_SHA256 toy_JSON_stringify 1700000000123)
           _ 1700000010999 (BlockClass.new (StarData "star" "addr"))).
  - apply constructor_reachable.
  - vm_compute. discriminate.
  - reflexivity.
Defined.
